(** * image_sender: palette quantisation and packet framing

    A shallow embedding of the pure core of [image_sender.py]:
    the fixed 8-colour palette and its nearest-colour scan, the row-major
    frame loop, and the construction of the serial packet
    (magic, big-endian width and height, one masked byte per pixel).

    Python integers are unbounded, so they are modelled by [Z]; [bytes]
    values are lists of [byte]; a raised exception is the [Raise] branch
    of the [result] type. *)

From Stdlib Require Import ZArith List Lia Bool String.
From Stdlib Require Import Strings.Byte.
Import ListNotations.

Local Open Scope Z_scope.

(** ** Python scaffolding: exceptions, [range], [enumerate] *)

(** The two exception classes the packet code can raise, with the
    interpreter's (or the source's) message. *)
Inductive exception : Type :=
| ValueError (msg : string)
| OverflowError (msg : string).

Inductive result (A : Type) : Type :=
| Return (a : A)
| Raise (e : exception).

Arguments Return {A} a.
Arguments Raise {A} e.

Definition bind {A B : Type} (m : result A) (k : A -> result B) : result B :=
  match m with
  | Return a => k a
  | Raise e => Raise e
  end.

Notation "x <- m ;; k" := (bind m (fun x => k))
  (at level 61, m at next level, right associativity).

(** [range(n)]: the integers [0 .. n-1], empty when [n <= 0]. *)
Definition range (n : Z) : list Z := map Z.of_nat (seq 0 (Z.to_nat n)).

(** [enumerate(l, start)]. *)
Fixpoint enumerate_from {A : Type} (start : Z) (l : list A) : list (Z * A) :=
  match l with
  | [] => []
  | x :: t => (start, x) :: enumerate_from (start + 1) t
  end.

Definition enumerate {A : Type} (l : list A) : list (Z * A) :=
  enumerate_from 0 l.

(** ** Palette and distance *)

Definition color : Type := (Z * Z * Z)%type.

Definition DEFAULT_WIDTH : Z := 160.
Definition DEFAULT_HEIGHT : Z := 120.

Definition PALETTE_8_COLORS : list color :=
  [ (0,   0,   0);
    (0,   0, 255);
    (0, 255,   0);
    (0, 255, 255);
    (255, 0,   0);
    (255, 0, 255);
    (255, 255, 0);
    (255, 255, 255) ].

Definition _color_distance_sq (c1 c2 : color) : Z :=
  let '(r1, g1, b1) := c1 in
  let '(r2, g2, b2) := c2 in
  let dr := r1 - r2 in
  let dg := g1 - g2 in
  let db := b1 - b2 in
  dr * dr + dg * dg + db * db.

(** ** Quantiser: the linear scan *)

(** The two loop variables of [_quantize_color_to_palette_3bit];
    [best_dist = None] is Python's [None]. *)
Record scan_state : Type := mkScan {
  best_index : Z;
  best_dist : option Z
}.

Definition scan_init : scan_state := mkScan 0 None.

(** One iteration of the [for idx, pal_color in enumerate(...)] body. *)
Definition scan_step (rgb : color) (st : scan_state) (it : Z * color)
  : scan_state :=
  let '(idx, pal_color) := it in
  let dist := _color_distance_sq rgb pal_color in
  match best_dist st with
  | None => mkScan idx (Some dist)
  | Some bd => if dist <? bd then mkScan idx (Some dist) else st
  end.

(** The scan over an arbitrary palette list. *)
Definition scan_palette (palette : list color) (rgb : color) : scan_state :=
  fold_left (scan_step rgb) (enumerate palette) scan_init.

Definition _quantize_color_to_palette_3bit (rgb : color) : Z :=
  best_index (scan_palette PALETTE_8_COLORS rgb).

(** Palette entry at a position (black outside the list). *)
Definition palette_at (palette : list color) (i : nat) : color :=
  nth i palette (0, 0, 0).

(** The per-channel threshold encoding the quantiser is compared with:
    bit 2 for red, bit 1 for green, bit 0 for blue. *)
Definition threshold_index (rgb : color) : Z :=
  let '(r, g, b) := rgb in
  4 * (if 128 <=? r then 1 else 0)
  + 2 * (if 128 <=? g then 1 else 0)
  + (if 128 <=? b then 1 else 0).

Definition is_8bit (rgb : color) : Prop :=
  let '(r, g, b) := rgb in
  0 <= r <= 255 /\ 0 <= g <= 255 /\ 0 <= b <= 255.

(** ** Nearest entries

    The predicates in which the scan is specified. *)

(** [i] is the first position of [palette] whose entry is nearest to
    [rgb]: in range, of minimal squared distance, and no position with
    the same distance comes before it. *)
Definition first_nearest (palette : list color) (rgb : color) (i : nat)
  : Prop :=
  (i < List.length palette)%nat
  /\ (forall j, (j < List.length palette)%nat ->
        _color_distance_sq rgb (palette_at palette i)
        <= _color_distance_sq rgb (palette_at palette j))
  /\ (forall j, (j < List.length palette)%nat ->
        _color_distance_sq rgb (palette_at palette j)
        = _color_distance_sq rgb (palette_at palette i) ->
        (i <= j)%nat).

(** What the two loop variables hold after the scan of a non-empty
    palette. *)
Definition scan_invariant (rgb : color) (palette : list color)
  (st : scan_state) : Prop :=
  exists i : nat,
    best_index st = Z.of_nat i
    /\ best_dist st = Some (_color_distance_sq rgb (palette_at palette i))
    /\ first_nearest palette rgb i.

(** The squared Euclidean distance as such, written channel by channel
    without reference to the code: the yardstick against which the
    scan's choice is measured. *)
Definition squared_euclidean (c1 c2 : color) : Z :=
  (fst (fst c1) - fst (fst c2)) ^ 2
  + (snd (fst c1) - snd (fst c2)) ^ 2
  + (snd c1 - snd c2) ^ 2.

(** No two distinct palette positions are at the same distance from
    [rgb]. *)
Definition no_distance_tie (rgb : color) : Prop :=
  forall i j : nat,
    (i < 8)%nat -> (j < 8)%nat -> i <> j ->
    _color_distance_sq rgb (palette_at PALETTE_8_COLORS i)
    <> _color_distance_sq rgb (palette_at PALETTE_8_COLORS j).

(** Position [i] is strictly nearer to [rgb] than every other palette
    position. *)
Definition unique_nearest (rgb : color) (i : nat) : Prop :=
  forall j : nat,
    (j < 8)%nat -> j <> i ->
    _color_distance_sq rgb (palette_at PALETTE_8_COLORS i)
    < _color_distance_sq rgb (palette_at PALETTE_8_COLORS j).

(** ** Frame loop *)

(** [Image.open], [convert] and [resize] belong to Pillow; the resized
    image enters the model through its [getpixel], a function from the
    coordinate pair [(x, y)] to the RGB triple stored there. *)
Definition image : Type := Z * Z -> color.

(** The inner [for x in range(width)] loop for one row [y]; every
    iteration appends one index to [pixel_indices]. *)
Definition row_loop (img : image) (width y : Z) (pixel_indices : list Z)
  : list Z :=
  fold_left
    (fun acc x =>
       let rgb := img (x, y) in
       let idx := _quantize_color_to_palette_3bit rgb in
       acc ++ [idx])
    (range width) pixel_indices.

(** Lines 117-126 of [load_and_convert_to_3bit_indices], applied to the
    resized image. *)
Definition load_and_convert_to_3bit_indices
  (img : image) (width height : Z) : list Z * Z * Z :=
  let pixel_indices :=
    fold_left (fun acc y => row_loop img width y acc) (range height) [] in
  (pixel_indices, width, height).

(** The indices of row [y], left to right. *)
Definition quantized_row (img : image) (width y : Z) : list Z :=
  map (fun x => _quantize_color_to_palette_3bit (img (x, y))) (range width).

(** ** Bytes *)

Definition bytes_range_msg : string := "bytes must be in range(0, 256)".
Definition negative_msg : string := "can't convert negative int to unsigned".
Definition too_big_msg : string := "int too big to convert".
Definition magic_msg : string :=
  "La cadena MAGIC debe tener exactamente 4 bytes.".

(** One element of [bytes(iterable)]: an int outside [range(256)] raises. *)
Definition int_to_byte (v : Z) : result byte :=
  match (if 0 <=? v then Byte.of_N (Z.to_N v) else None) with
  | Some b => Return b
  | None => Raise (ValueError bytes_range_msg)
  end.

(** [bytes(iterable of ints)]. *)
Fixpoint bytes (l : list Z) : result (list byte) :=
  match l with
  | [] => Return []
  | v :: t =>
      b <- int_to_byte v ;;
      bs <- bytes t ;;
      Return (b :: bs)
  end.

Definition byte_value (b : byte) : Z := Z.of_N (Byte.to_N b).

(** The low eight bits of a non-negative integer, as a byte. *)
Definition low_byte (n : Z) : byte :=
  match Byte.of_N (Z.to_N (n mod 256)) with
  | Some b => b
  | None => x00
  end.

Fixpoint little_endian (len : nat) (n : Z) : list byte :=
  match len with
  | O => []
  | S k => low_byte n :: little_endian k (n / 256)
  end.

(** [n.to_bytes(len, byteorder="big", signed=False)]. *)
Definition to_bytes (n : Z) (len : nat) : result (list byte) :=
  if n <? 0 then Raise (OverflowError negative_msg)
  else if 256 ^ Z.of_nat len <=? n then Raise (OverflowError too_big_msg)
  else Return (rev (little_endian len n)).

(** [int.from_bytes(bs, byteorder="big", signed=False)], the decoder a
    receiver applies to the two dimension fields. *)
Definition from_bytes (bs : list byte) : Z :=
  fold_left (fun acc b => acc * 256 + byte_value b) bs 0.

(** The slice [l[a:b]] for [0 <= a <= b]. *)
Definition slice {A : Type} (a b : nat) (l : list A) : list A :=
  firstn (b - a) (skipn a l).

(** ** Packet *)

Definition DEFAULT_MAGIC : list byte := [x49; x4d; x47; x33].

Definition pack_pixels_1byte_per_pixel (pixel_indices : list Z)
  : result (list byte) :=
  bytes (map (fun idx => Z.land idx 7) pixel_indices).

Definition build_image_packet
  (pixel_indices : list Z) (width height : Z) (magic : list byte)
  : result (list byte) :=
  if negb (Nat.eqb (List.length magic) 4) then Raise (ValueError magic_msg)
  else
    let header := [] ++ magic in
    (w2 <- to_bytes width 2 ;;
     let header := header ++ w2 in
     h2 <- to_bytes height 2 ;;
     let header := header ++ h2 in
     pixels_bytes <- pack_pixels_1byte_per_pixel pixel_indices ;;
     Return (header ++ pixels_bytes)).

(** The byte a pixel index becomes: its three low bits. *)
Definition masked_byte (idx : Z) : byte := low_byte (Z.land idx 7).

(** The value fits the unsigned 16-bit header field. *)
Definition fits_u16 (n : Z) : Prop := 0 <= n <= 65535.

(** The packet of a well-formed call: magic, the two dimensions, then
    one masked byte per index. *)
Definition packet_of (pixel_indices : list Z) (width height : Z)
  (magic : list byte) : list byte :=
  magic ++ rev (little_endian 2 width) ++ rev (little_endian 2 height)
        ++ map masked_byte pixel_indices.

(** The error names of the specification, as the exceptions the code
    raises for them. *)
Definition InvalidMagicLength : exception := ValueError magic_msg.

Definition DimensionOutOfRange (e : exception) : bool :=
  match e with
  | OverflowError _ => true
  | ValueError _ => false
  end.

(** ** The pipeline of [main]

    Lines 270-278 of [main]: the frame loop on the resized image, then
    the packet with the default magic.  The result is the buffer handed
    to [send_packet_over_serial]; argument parsing, the progress
    messages and the serial port itself are outside the model. *)
Definition main_packet (img : image) (width height : Z)
  : result (list byte) :=
  let '(pixel_indices, width, height) :=
    load_and_convert_to_3bit_indices img width height in
  build_image_packet pixel_indices width height DEFAULT_MAGIC.

(** The index is one of the eight palette positions. *)
Definition palette_index (idx : Z) : Prop := 0 <= idx <= 7.

(** * The documented scenarios, evaluated *)

Example quantize_near_red : _quantize_color_to_palette_3bit (250, 10, 20) = 4.
Proof. reflexivity. Qed.

Example distance_red_black :
  _color_distance_sq (255, 0, 0) (0, 0, 0) = 255 * 255.
Proof. reflexivity. Qed.

(** On a palette with a repeated entry the scan keeps the first one. *)
Example scan_keeps_first_of_equals :
  best_index (scan_palette [(9, 9, 9); (0, 0, 0); (0, 0, 0)] (1, 1, 1)) = 1.
Proof. reflexivity. Qed.

Example solid_red_2x2 :
  load_and_convert_to_3bit_indices (fun _ => (255, 0, 0)) 2 2
  = ([4; 4; 4; 4], 2, 2).
Proof. reflexivity. Qed.

Example pack_0_1_2_7 :
  pack_pixels_1byte_per_pixel [0; 1; 2; 7] = Return [x00; x01; x02; x07].
Proof. reflexivity. Qed.

Example build_3_4_5 :
  build_image_packet [3; 4; 5] 1 3 DEFAULT_MAGIC
  = Return [x49; x4d; x47; x33; x00; x01; x00; x03; x03; x04; x05].
Proof. reflexivity. Qed.

Example build_magic_of_length_3 :
  build_image_packet [3; 4; 5] 1 3 [x49; x4d; x47] = Raise InvalidMagicLength.
Proof. reflexivity. Qed.

Example to_bytes_258 : to_bytes 258 2 = Return [x01; x02].
Proof. reflexivity. Qed.

Example pack_adversarial :
  pack_pixels_1byte_per_pixel [-1; 8; 255; 1000]
  = Return [x07; x00; x07; x00].
Proof. reflexivity. Qed.

(** * Properties of the quantiser *)

Section Scan.

Variable rgb : color.

Lemma enumerate_from_app (A : Type) (l1 l2 : list A) :
  forall start,
    enumerate_from start (l1 ++ l2)
    = enumerate_from start l1
      ++ enumerate_from (start + Z.of_nat (List.length l1)) l2.
Proof.
  induction l1 as [|a l1 IH]; intros start; cbn [enumerate_from app List.length].
  - now rewrite Z.add_0_r.
  - rewrite IH. do 3 f_equal. lia.
Qed.

Lemma scan_palette_snoc (palette : list color) (c : color) :
  scan_palette (palette ++ [c]) rgb
  = scan_step rgb (scan_palette palette rgb)
      (Z.of_nat (List.length palette), c).
Proof.
  unfold scan_palette, enumerate.
  rewrite enumerate_from_app, fold_left_app. reflexivity.
Qed.

Lemma palette_at_old (palette : list color) (c : color) (j : nat) :
  (j < List.length palette)%nat ->
  palette_at (palette ++ [c]) j = palette_at palette j.
Proof. intros Hj. unfold palette_at. now rewrite app_nth1. Qed.

Lemma palette_at_new (palette : list color) (c : color) :
  palette_at (palette ++ [c]) (List.length palette) = c.
Proof.
  unfold palette_at. rewrite app_nth2 by lia.
  now rewrite Nat.sub_diag.
Qed.

Lemma scan_invariant_first (c : color) :
  scan_invariant rgb [c] (scan_palette [c] rgb).
Proof.
  exists 0%nat. repeat split; cbn [List.length] in *.
  - lia.
  - intros j Hj. replace j with 0%nat by lia. lia.
  - lia.
Qed.

Lemma scan_invariant_step (palette : list color) (c : color) :
  scan_invariant rgb palette (scan_palette palette rgb) ->
  scan_invariant rgb (palette ++ [c])
    (scan_palette (palette ++ [c]) rgb).
Proof.
  intros (i & Hidx & Hdist & Hlt & Hmin & Hfirst).
  rewrite scan_palette_snoc. unfold scan_step. rewrite Hdist.
  set (n := List.length palette) in *.
  assert (Hlen : List.length (palette ++ [c]) = S n)
    by (rewrite length_app; cbn; lia).
  destruct (Z.ltb_spec (_color_distance_sq rgb c)
              (_color_distance_sq rgb (palette_at palette i))) as [Hc | Hc].
  - exists n. cbn [best_index best_dist]. unfold first_nearest.
    rewrite Hlen, palette_at_new. repeat split; try lia.
    + intros j Hj. destruct (Nat.eq_dec j n) as [-> | Hne].
      * rewrite palette_at_new. lia.
      * rewrite palette_at_old by lia. specialize (Hmin j). lia.
    + intros j Hj Heq. destruct (Nat.eq_dec j n) as [-> | Hne]; [lia|].
      rewrite palette_at_old in Heq by lia. specialize (Hmin j). lia.
  - exists i. unfold first_nearest.
    rewrite Hlen, palette_at_old by lia. repeat split; try lia; try assumption.
    + intros j Hj. destruct (Nat.eq_dec j n) as [-> | Hne].
      * rewrite palette_at_new. lia.
      * rewrite palette_at_old by lia. apply Hmin. lia.
    + intros j Hj Heq. destruct (Nat.eq_dec j n) as [-> | Hne]; [lia|].
      rewrite palette_at_old in Heq by lia. apply Hfirst; [lia | assumption].
Qed.

Lemma scan_palette_invariant (palette : list color) :
  palette <> [] -> scan_invariant rgb palette (scan_palette palette rgb).
Proof.
  induction palette as [|c palette IH] using rev_ind; [congruence|].
  intros _. destruct palette as [|c0 palette].
  - apply scan_invariant_first.
  - apply scan_invariant_step, IH. discriminate.
Qed.

End Scan.

Lemma color_distance_sq_euclidean (c1 c2 : color) :
  _color_distance_sq c1 c2 = squared_euclidean c1 c2.
Proof.
  destruct c1 as [[r1 g1] b1], c2 as [[r2 g2] b2].
  unfold _color_distance_sq, squared_euclidean. cbn [fst snd]. ring.
Qed.

(** C7: for every RGB colour the quantiser returns the position of a
    palette entry whose squared Euclidean distance to the colour is
    minimal among the eight entries, and among the positions attaining
    that minimum it returns the lowest. *)
Theorem quantize_first_nearest (rgb : color) :
  exists (i : nat) (p : color),
    _quantize_color_to_palette_3bit rgb = Z.of_nat i
    /\ nth_error PALETTE_8_COLORS i = Some p
    /\ (forall j q,
          nth_error PALETTE_8_COLORS j = Some q ->
          squared_euclidean rgb p <= squared_euclidean rgb q)
    /\ (forall j q,
          nth_error PALETTE_8_COLORS j = Some q ->
          squared_euclidean rgb q = squared_euclidean rgb p ->
          (i <= j)%nat).
Proof.
  destruct (scan_palette_invariant rgb PALETTE_8_COLORS)
    as (i & Hi & _ & Hlt & Hmin & Hfirst); [discriminate | ].
  exists i, (palette_at PALETTE_8_COLORS i).
  split; [exact Hi | split; [ | split]].
  - now apply nth_error_nth'.
  - intros j q Hq.
    assert (Hj : (j < List.length PALETTE_8_COLORS)%nat)
      by (apply nth_error_Some; congruence).
    apply (nth_error_nth _ _ (0, 0, 0)) in Hq.
    rewrite <- !color_distance_sq_euclidean, <- Hq. now apply Hmin.
  - intros j q Hq Heq.
    assert (Hj : (j < List.length PALETTE_8_COLORS)%nat)
      by (apply nth_error_Some; congruence).
    apply (nth_error_nth _ _ (0, 0, 0)) in Hq.
    rewrite <- !color_distance_sq_euclidean, <- Hq in Heq.
    now apply Hfirst.
Qed.

Lemma quantize_first_nearest_witness :
  exists (i : nat) (p : color),
    _quantize_color_to_palette_3bit (250, 10, 20) = Z.of_nat i
    /\ nth_error PALETTE_8_COLORS i = Some p
    /\ (forall j q,
          nth_error PALETTE_8_COLORS j = Some q ->
          squared_euclidean (250, 10, 20) p
          <= squared_euclidean (250, 10, 20) q)
    /\ (forall j q,
          nth_error PALETTE_8_COLORS j = Some q ->
          squared_euclidean (250, 10, 20) q
          = squared_euclidean (250, 10, 20) p ->
          (i <= j)%nat).
Proof. exact (quantize_first_nearest (250, 10, 20)). Defined.

(** C6: each of the eight palette colours quantises to its own position
    in the palette. *)
Theorem quantize_palette_color (i : nat) (c : color) :
  nth_error PALETTE_8_COLORS i = Some c ->
  _quantize_color_to_palette_3bit c = Z.of_nat i.
Proof.
  intros H.
  do 8 (destruct i as [|i]; [injection H as <-; reflexivity | ]).
  destruct i; discriminate H.
Qed.

Lemma quantize_palette_color_witness :
  nth_error PALETTE_8_COLORS 6 = Some (255, 255, 0)
  /\ _quantize_color_to_palette_3bit (255, 255, 0) = 6.
Proof.
  split; [reflexivity | ].
  apply (quantize_palette_color 6 (255, 255, 0)). reflexivity.
Defined.

Lemma threshold_index_range (rgb : color) : 0 <= threshold_index rgb < 8.
Proof.
  destruct rgb as [[r g] b]. unfold threshold_index.
  destruct (128 <=? r), (128 <=? g), (128 <=? b); lia.
Qed.

(** For an 8-bit colour the corner picked channel by channel is strictly
    nearer than each of the seven others. *)
Lemma threshold_unique_nearest (rgb : color) :
  is_8bit rgb -> unique_nearest rgb (Z.to_nat (threshold_index rgb)).
Proof.
  destruct rgb as [[r g] b]. intros (Hr & Hg & Hb) j Hj Hne.
  unfold threshold_index in *.
  destruct (Z.leb_spec 128 r), (Z.leb_spec 128 g), (Z.leb_spec 128 b);
    match goal with
    | |- context [Z.to_nat ?e] =>
        let v := eval vm_compute in (Z.to_nat e) in
        change (Z.to_nat e) with v in *
    end;
    (do 8 (destruct j as [|j]; [try congruence; cbn; lia | ])); lia.
Qed.

(** C10, as amended: for every 8-bit RGB triple the quantiser equals the
    per-channel threshold encoding, and the palette entry it returns is
    strictly nearer than each of the other seven, so the minimal distance
    is never attained twice. *)
Theorem quantize_threshold (rgb : color) :
  is_8bit rgb ->
  _quantize_color_to_palette_3bit rgb = threshold_index rgb
  /\ unique_nearest rgb (Z.to_nat (_quantize_color_to_palette_3bit rgb)).
Proof.
  intros H8.
  pose proof (threshold_unique_nearest rgb H8) as Hu.
  pose proof (threshold_index_range rgb) as Ht.
  destruct (scan_palette_invariant rgb PALETTE_8_COLORS)
    as (i & Hi & _ & Hlt & Hmin & _); [discriminate | ].
  change (_quantize_color_to_palette_3bit rgb = Z.of_nat i) in Hi.
  cbn [List.length PALETTE_8_COLORS] in Hlt, Hmin.
  assert (Heq : i = Z.to_nat (threshold_index rgb)).
  { destruct (Nat.eq_dec i (Z.to_nat (threshold_index rgb))) as [E | E];
      [exact E | exfalso].
    specialize (Hu i Hlt E).
    specialize (Hmin (Z.to_nat (threshold_index rgb))). lia. }
  rewrite Hi, Heq, Z2Nat.id by lia.
  split; [reflexivity | exact Hu].
Qed.

Lemma quantize_threshold_witness :
  is_8bit (200, 127, 128)
  /\ _quantize_color_to_palette_3bit (200, 127, 128) = 5
  /\ unique_nearest (200, 127, 128) 5.
Proof.
  assert (H : is_8bit (200, 127, 128)) by (cbn; lia).
  split; [exact H | ].
  exact (quantize_threshold (200, 127, 128) H).
Defined.

(** C10, as stated, fails at the colour (10, 10, 0): it is an 8-bit
    triple, and green (position 2) and red (position 4) are both at
    squared distance 60125 from it. *)
Lemma distance_tie_green_red :
  ~ (forall rgb : color,
       is_8bit rgb ->
       _quantize_color_to_palette_3bit rgb = threshold_index rgb
       /\ no_distance_tie rgb).
Proof.
  intros H.
  destruct (H (10, 10, 0)) as [_ Htie]; [cbn; lia | ].
  apply (Htie 2%nat 4%nat); [lia | lia | discriminate | reflexivity].
Qed.

(** * Properties of the frame loop *)

Lemma length_range (n : Z) : List.length (range n) = Z.to_nat n.
Proof. unfold range. now rewrite length_map, length_seq. Qed.

Lemma nth_error_range (n : Z) (k : nat) :
  (k < Z.to_nat n)%nat -> nth_error (range n) k = Some (Z.of_nat k).
Proof.
  intros Hk. unfold range. rewrite nth_error_map, nth_error_seq.
  apply Nat.ltb_lt in Hk. now rewrite Hk.
Qed.

Lemma fold_left_append (A B : Type) (f : B -> A) (l : list B) :
  forall acc, fold_left (fun acc x => acc ++ [f x]) l acc = acc ++ map f l.
Proof.
  induction l as [|b l IH]; intros acc; cbn [fold_left map].
  - now rewrite app_nil_r.
  - rewrite IH, <- app_assoc. reflexivity.
Qed.

Lemma row_loop_appends (img : image) (width y : Z) (acc : list Z) :
  row_loop img width y acc = acc ++ quantized_row img width y.
Proof.
  unfold row_loop, quantized_row.
  apply (fold_left_append _ _
           (fun x => _quantize_color_to_palette_3bit (img (x, y)))).
Qed.

Lemma rows_loop_appends (img : image) (width : Z) (ys : list Z) :
  forall acc,
    fold_left (fun acc y => row_loop img width y acc) ys acc
    = acc ++ flat_map (quantized_row img width) ys.
Proof.
  induction ys as [|y ys IH]; intros acc; cbn [fold_left flat_map].
  - now rewrite app_nil_r.
  - rewrite IH, row_loop_appends, <- app_assoc. reflexivity.
Qed.

(** The result of the two nested loops is the concatenation of the rows. *)
Lemma load_and_convert_rows (img : image) (width height : Z) :
  load_and_convert_to_3bit_indices img width height
  = (flat_map (quantized_row img width) (range height), width, height).
Proof.
  unfold load_and_convert_to_3bit_indices.
  now rewrite rows_loop_appends.
Qed.

Lemma nth_error_flat_map_uniform (A B : Type) (f : A -> list B) (c : nat) :
  forall (l : list A) (i k : nat) (a : A),
    (forall a', In a' l -> List.length (f a') = c) ->
    nth_error l i = Some a ->
    (k < c)%nat ->
    nth_error (flat_map f l) (i * c + k) = nth_error (f a) k.
Proof.
  induction l as [|a0 l IH]; intros i k a Hlen Hi Hk.
  - destruct i; discriminate Hi.
  - assert (H0 : List.length (f a0) = c) by (apply Hlen; now left).
    cbn [flat_map]. destruct i as [|i]; cbn [nth_error] in Hi.
    + injection Hi as ->. cbn [Nat.mul Nat.add].
      apply nth_error_app1. lia.
    + rewrite nth_error_app2 by lia.
      replace (S i * c + k - List.length (f a0))%nat with (i * c + k)%nat
        by lia.
      apply IH; [ | exact Hi | exact Hk].
      intros a' Ha'. apply Hlen. now right.
Qed.

Lemma length_quantized_row (img : image) (width y : Z) :
  List.length (quantized_row img width y) = Z.to_nat width.
Proof. unfold quantized_row. now rewrite length_map, length_range. Qed.

(** C5: for a grid of positive width and height the frame loop returns
    exactly [width * height] indices, and the one at position
    [y * width + x] is the quantisation of the pixel at [(x, y)]:
    the rows [y = 0 .. height-1] are laid out one after the other, each
    from [x = 0] to [x = width-1]. *)
Theorem load_and_convert_row_major (img : image) (width height : Z) :
  0 < width -> 0 < height ->
  forall pixel_indices w h,
    load_and_convert_to_3bit_indices img width height
    = (pixel_indices, w, h) ->
    w = width /\ h = height
    /\ pixel_indices = flat_map (quantized_row img width) (range height)
    /\ Z.of_nat (List.length pixel_indices) = width * height
    /\ forall x y,
         0 <= x < width -> 0 <= y < height ->
         nth_error pixel_indices (Z.to_nat (y * width + x))
         = Some (_quantize_color_to_palette_3bit (img (x, y))).
Proof.
  intros Hw Hh pixel_indices w h Hload.
  rewrite load_and_convert_rows in Hload.
  injection Hload as <- <- <-.
  split; [reflexivity | split; [reflexivity | split; [reflexivity | split]]].
  - rewrite flat_map_constant_length with (c := Z.to_nat width).
    + rewrite length_range. lia.
    + intros y _. apply length_quantized_row.
  - intros x y Hx Hy.
    replace (Z.to_nat (y * width + x))
      with (Z.to_nat y * Z.to_nat width + Z.to_nat x)%nat by nia.
    rewrite (nth_error_flat_map_uniform _ _ _ (Z.to_nat width) _ _ _ y).
    + unfold quantized_row.
      rewrite nth_error_map, nth_error_range by lia.
      cbn [option_map]. now rewrite Z2Nat.id by lia.
    + intros y' _. apply length_quantized_row.
    + rewrite nth_error_range by lia. now rewrite Z2Nat.id by lia.
    + lia.
Qed.

Lemma load_and_convert_row_major_witness :
  0 < 2 /\ 0 < 3
  /\ nth_error
       (fst (fst (load_and_convert_to_3bit_indices
                    (fun p => (255 * fst p, 127 * snd p, 0)) 2 3)))
       (Z.to_nat (2 * 2 + 1))
     = Some (_quantize_color_to_palette_3bit (255 * 1, 127 * 2, 0)).
Proof.
  assert (Hw : 0 < 2) by lia.
  assert (Hh : 0 < 3) by lia.
  split; [exact Hw | split; [exact Hh | ]].
  refine (proj2 (proj2 (proj2 (proj2
    (load_and_convert_row_major (fun p => (255 * fst p, 127 * snd p, 0)) 2 3
       Hw Hh _ _ _ eq_refl)))) 1 2 _ _); lia.
Defined.

(** * Properties of the byte encoders *)

Lemma byte_value_range (b : byte) : 0 <= byte_value b <= 255.
Proof.
  unfold byte_value. pose proof (Byte.to_N_bounded b). lia.
Qed.

Lemma byte_value_low_byte (n : Z) : byte_value (low_byte n) = n mod 256.
Proof.
  unfold byte_value, low_byte.
  pose proof (Z.mod_pos_bound n 256 eq_refl) as Hm.
  destruct (Byte.of_N (Z.to_N (n mod 256))) as [b|] eqn:E.
  - apply Byte.to_of_N in E. rewrite E. lia.
  - apply Byte.of_N_None_iff in E. lia.
Qed.

Lemma int_to_byte_in_range (v : Z) :
  0 <= v < 256 -> int_to_byte v = Return (low_byte v).
Proof.
  intros Hv. unfold int_to_byte, low_byte.
  rewrite Z.mod_small by lia.
  destruct (Z.leb_spec 0 v); [ | lia].
  destruct (Byte.of_N (Z.to_N v)) eqn:E; [reflexivity | ].
  apply Byte.of_N_None_iff in E. lia.
Qed.

Lemma land_7_range (idx : Z) : 0 <= Z.land idx 7 <= 7.
Proof.
  assert (E : Z.land idx 7 = idx mod 8)
    by (change 7 with (Z.ones 3); now rewrite Z.land_ones by lia).
  rewrite E. pose proof (Z.mod_pos_bound idx 8 eq_refl). lia.
Qed.

Lemma byte_value_masked_byte (idx : Z) :
  byte_value (masked_byte idx) = Z.land idx 7.
Proof.
  unfold masked_byte. rewrite byte_value_low_byte.
  pose proof (land_7_range idx). apply Z.mod_small. lia.
Qed.

(** Masking makes [bytes(...)] total on every list of integers. *)
Lemma pack_pixels_returns (pixel_indices : list Z) :
  pack_pixels_1byte_per_pixel pixel_indices
  = Return (map masked_byte pixel_indices).
Proof.
  unfold pack_pixels_1byte_per_pixel.
  induction pixel_indices as [|idx l IH]; cbn [map bytes]; [reflexivity | ].
  pose proof (land_7_range idx).
  rewrite int_to_byte_in_range by lia. cbn [bind].
  rewrite IH. reflexivity.
Qed.

Lemma little_endian_length (len : nat) :
  forall n, List.length (little_endian len n) = len.
Proof.
  induction len as [|k IH]; intros n; cbn [little_endian List.length];
    [reflexivity | now rewrite IH].
Qed.

Lemma from_bytes_snoc (bs : list byte) (b : byte) :
  from_bytes (bs ++ [b]) = from_bytes bs * 256 + byte_value b.
Proof. unfold from_bytes. now rewrite fold_left_app. Qed.

(** Decoding the big-endian digits recovers the number modulo
    [256 ^ len]. *)
Lemma from_bytes_little_endian_rev (len : nat) :
  forall n, from_bytes (rev (little_endian len n)) = n mod 256 ^ Z.of_nat len.
Proof.
  induction len as [|k IH]; intros n.
  - cbn. now rewrite Z.mod_1_r.
  - cbn [little_endian rev].
    rewrite from_bytes_snoc, IH, byte_value_low_byte.
    rewrite Nat2Z.inj_succ, Z.pow_succ_r by lia.
    rewrite Z.rem_mul_r by lia. lia.
Qed.

Lemma to_bytes_returns (n : Z) (len : nat) :
  0 <= n < 256 ^ Z.of_nat len ->
  to_bytes n len = Return (rev (little_endian len n)).
Proof.
  intros Hn. unfold to_bytes.
  destruct (Z.ltb_spec n 0); [lia | ].
  destruct (Z.leb_spec (256 ^ Z.of_nat len) n); [lia | reflexivity].
Qed.

Lemma to_bytes_raises (n : Z) (len : nat) :
  ~ 0 <= n < 256 ^ Z.of_nat len ->
  exists msg, to_bytes n len = Raise (OverflowError msg).
Proof.
  intros Hn. unfold to_bytes.
  destruct (Z.ltb_spec n 0); [now eexists | ].
  destruct (Z.leb_spec (256 ^ Z.of_nat len) n); [now eexists | lia].
Qed.

(** [to_bytes] followed by [from_bytes] is the identity on the values
    that fit. *)
Lemma from_bytes_to_bytes (n : Z) (len : nat) :
  0 <= n < 256 ^ Z.of_nat len ->
  exists bs,
    to_bytes n len = Return bs
    /\ List.length bs = len
    /\ from_bytes bs = n.
Proof.
  intros Hn. exists (rev (little_endian len n)).
  rewrite to_bytes_returns by exact Hn.
  rewrite length_rev, little_endian_length, from_bytes_little_endian_rev.
  repeat split. apply Z.mod_small. exact Hn.
Qed.

(** * Properties of the packet builder *)

Lemma fits_u16_dec (n : Z) : {fits_u16 n} + {~ fits_u16 n}.
Proof.
  unfold fits_u16.
  destruct (Z_le_dec 0 n), (Z_le_dec n 65535); (left; lia) || (right; lia).
Defined.

Lemma fits_u16_to_bytes (n : Z) :
  fits_u16 n <-> 0 <= n < 256 ^ Z.of_nat 2.
Proof. unfold fits_u16. change (256 ^ Z.of_nat 2) with 65536. lia. Qed.

Lemma build_returns (pixel_indices : list Z) (width height : Z)
  (magic : list byte) :
  List.length magic = 4%nat -> fits_u16 width -> fits_u16 height ->
  build_image_packet pixel_indices width height magic
  = Return (packet_of pixel_indices width height magic).
Proof.
  intros Hm Hw Hh. unfold build_image_packet, packet_of.
  rewrite Hm. cbn [Nat.eqb negb app].
  rewrite (to_bytes_returns width) by now apply fits_u16_to_bytes.
  cbn [bind].
  rewrite (to_bytes_returns height) by now apply fits_u16_to_bytes.
  cbn [bind].
  rewrite pack_pixels_returns. cbn [bind].
  now rewrite <- !app_assoc.
Qed.

Lemma build_bad_magic (pixel_indices : list Z) (width height : Z)
  (magic : list byte) :
  List.length magic <> 4%nat ->
  build_image_packet pixel_indices width height magic
  = Raise InvalidMagicLength.
Proof.
  intros Hm. unfold build_image_packet.
  apply Nat.eqb_neq in Hm. now rewrite Hm.
Qed.

Lemma build_bad_dimension (pixel_indices : list Z) (width height : Z)
  (magic : list byte) :
  List.length magic = 4%nat ->
  ~ fits_u16 width \/ ~ fits_u16 height ->
  exists msg,
    build_image_packet pixel_indices width height magic
    = Raise (OverflowError msg).
Proof.
  intros Hm Hd. unfold build_image_packet.
  rewrite Hm. cbn [Nat.eqb negb app].
  destruct (fits_u16_dec width) as [Hw | Hw].
  - destruct Hd as [Hd | Hd]; [contradiction | ].
    rewrite (to_bytes_returns width) by now apply fits_u16_to_bytes.
    cbn [bind].
    destruct (to_bytes_raises height 2) as [msg ->];
      [now rewrite <- fits_u16_to_bytes | ].
    now exists msg.
  - destruct (to_bytes_raises width 2) as [msg ->];
      [now rewrite <- fits_u16_to_bytes | ].
    now exists msg.
Qed.

(** A packet comes back only from a well-formed call, and then it is
    [packet_of]. *)
Lemma build_return_inv (pixel_indices : list Z) (width height : Z)
  (magic packet : list byte) :
  build_image_packet pixel_indices width height magic = Return packet ->
  List.length magic = 4%nat /\ fits_u16 width /\ fits_u16 height
  /\ packet = packet_of pixel_indices width height magic.
Proof.
  intros Hb.
  destruct (Nat.eq_dec (List.length magic) 4) as [Hm | Hm].
  - destruct (fits_u16_dec width) as [Hw | Hw];
      [destruct (fits_u16_dec height) as [Hh | Hh] | ].
    + rewrite build_returns in Hb by assumption.
      injection Hb as <-. auto.
    + destruct (build_bad_dimension pixel_indices width height magic Hm)
        as [msg E]; [now right | congruence].
    + destruct (build_bad_dimension pixel_indices width height magic Hm)
        as [msg E]; [now left | congruence].
  - rewrite build_bad_magic in Hb by exact Hm. discriminate Hb.
Qed.

Lemma length_packet_of (pixel_indices : list Z) (width height : Z)
  (magic : list byte) :
  List.length magic = 4%nat ->
  List.length (packet_of pixel_indices width height magic)
  = (8 + List.length pixel_indices)%nat.
Proof.
  intros Hm. unfold packet_of.
  rewrite !length_app, !length_rev, !little_endian_length, length_map, Hm.
  lia.
Qed.

Lemma skipn_8_packet_of (pixel_indices : list Z) (width height : Z)
  (magic : list byte) :
  List.length magic = 4%nat ->
  skipn 8 (packet_of pixel_indices width height magic)
  = map masked_byte pixel_indices.
Proof.
  intros Hm. unfold packet_of.
  do 4 (destruct magic as [|? magic]; [discriminate Hm | ]).
  destruct magic; [reflexivity | discriminate Hm].
Qed.

(** C8: a magic whose length is not 4 makes [build_image_packet] raise
    the magic-length error at once, whatever the other arguments; the
    result carries no bytes. *)
Theorem build_rejects_magic_length (magic : list byte) :
  List.length magic <> 4%nat ->
  forall pixel_indices width height,
    build_image_packet pixel_indices width height magic
    = Raise InvalidMagicLength.
Proof.
  intros Hm pixel_indices width height. now apply build_bad_magic.
Qed.

Lemma build_rejects_magic_length_witness :
  List.length [x49; x4d; x47] <> 4%nat
  /\ build_image_packet [3; 4; 5] 1 3 [x49; x4d; x47]
     = Raise InvalidMagicLength.
Proof.
  assert (H : List.length [x49; x4d; x47] <> 4%nat) by (cbn; lia).
  split; [exact H | ].
  exact (build_rejects_magic_length [x49; x4d; x47] H [3; 4; 5] 1 3).
Defined.

(** C3: with a 4-byte magic and both dimensions in 0..65535 a packet is
    returned for every index list; its bytes [0:4] are the magic, and
    its bytes [4:6] and [6:8], read as big-endian unsigned integers, are
    the width and the height. *)
Theorem build_header_round_trip
  (magic : list byte) (width height : Z) (pixel_indices : list Z) :
  List.length magic = 4%nat -> fits_u16 width -> fits_u16 height ->
  exists packet,
    build_image_packet pixel_indices width height magic = Return packet
    /\ slice 0 4 packet = magic
    /\ from_bytes (slice 4 6 packet) = width
    /\ from_bytes (slice 6 8 packet) = height.
Proof.
  intros Hm Hw Hh. exists (packet_of pixel_indices width height magic).
  split; [now apply build_returns | ].
  pose proof (from_bytes_little_endian_rev 2 width) as Ew.
  pose proof (from_bytes_little_endian_rev 2 height) as Eh.
  rewrite Z.mod_small in Ew, Eh by now apply fits_u16_to_bytes.
  unfold packet_of.
  do 4 (destruct magic as [|? magic]; [discriminate Hm | ]).
  destruct magic; [ | discriminate Hm].
  repeat split; [exact Ew | exact Eh].
Qed.

Lemma build_header_round_trip_witness :
  exists packet,
    build_image_packet [3; 4; 5] 160 120 DEFAULT_MAGIC = Return packet
    /\ slice 0 4 packet = DEFAULT_MAGIC
    /\ from_bytes (slice 4 6 packet) = 160
    /\ from_bytes (slice 6 8 packet) = 120.
Proof.
  apply (build_header_round_trip DEFAULT_MAGIC 160 120 [3; 4; 5]);
    [reflexivity | unfold fits_u16; lia | unfold fits_u16; lia].
Defined.

(** C4: for every list of integers the payload is produced, has one
    byte per index, each byte is the index masked to its three low bits
    and so lies in 0..7; in every packet that is built, the bytes from
    offset 8 on are this payload. *)
Theorem pack_pixels_masked (pixel_indices : list Z) :
  exists payload,
    pack_pixels_1byte_per_pixel pixel_indices = Return payload
    /\ map byte_value payload = map (fun idx => Z.land idx 7) pixel_indices
    /\ Forall (fun b => 0 <= byte_value b <= 7) payload
    /\ forall width height magic packet,
         build_image_packet pixel_indices width height magic
         = Return packet ->
         skipn 8 packet = payload.
Proof.
  exists (map masked_byte pixel_indices).
  split; [apply pack_pixels_returns | split; [ | split]].
  - rewrite map_map. apply map_ext. exact byte_value_masked_byte.
  - apply Forall_forall. intros b Hb.
    apply in_map_iff in Hb. destruct Hb as (idx & <- & _).
    rewrite byte_value_masked_byte. apply land_7_range.
  - intros width height magic packet Hb.
    apply build_return_inv in Hb. destruct Hb as (Hm & _ & _ & ->).
    now apply skipn_8_packet_of.
Qed.

Lemma pack_pixels_masked_witness :
  exists payload,
    pack_pixels_1byte_per_pixel [-1; 8; 13] = Return payload
    /\ map byte_value payload = [7; 0; 5]
    /\ Forall (fun b => 0 <= byte_value b <= 7) payload
    /\ forall width height magic packet,
         build_image_packet [-1; 8; 13] width height magic = Return packet ->
         skipn 8 packet = payload.
Proof. exact (pack_pixels_masked [-1; 8; 13]). Defined.

(** The packet is 8 bytes longer than the index list; it has
    [8 + width * height] bytes when the caller passes exactly
    [width * height] indices. *)
Lemma build_length_conforming
  (pixel_indices : list Z) (width height : Z) (magic packet : list byte) :
  build_image_packet pixel_indices width height magic = Return packet ->
  Z.of_nat (List.length pixel_indices) = width * height ->
  Z.of_nat (List.length packet) = 8 + width * height.
Proof.
  intros Hb Hn. apply build_return_inv in Hb.
  destruct Hb as (Hm & _ & _ & ->).
  rewrite length_packet_of by exact Hm. lia.
Qed.

(** C2: code defect.  The docstring of [build_image_packet] lays the
    packet out as an 8-byte header followed by [width * height] pixel
    bytes, but the length of the index list is never checked: for the
    indices [3, 4, 5] with width 1 and height 1 the call returns a
    packet of 11 bytes, not of 8 + 1 * 1 = 9. *)
Theorem build_mismatched_grid_length :
  exists packet,
    build_image_packet [3; 4; 5] 1 1 DEFAULT_MAGIC = Return packet
    /\ Z.of_nat (List.length packet) = 11
    /\ Z.of_nat (List.length packet) <> 8 + 1 * 1.
Proof.
  eexists. split; [reflexivity | split; [reflexivity | discriminate]].
Qed.

(** C1: code defect.  Three indices do not make a 1 x 1 grid, yet for
    the indices [3, 4, 5] with width 1 and height 1 the call raises
    nothing: it returns a packet whose header announces 1 x 1 and whose
    payload has three bytes.  The magic argument is validated, the
    index count is not. *)
Theorem build_mismatched_grid_returns :
  Z.of_nat (List.length [3; 4; 5]) <> 1 * 1
  /\ build_image_packet [3; 4; 5] 1 1 DEFAULT_MAGIC
     = Return [x49; x4d; x47; x33; x00; x01; x00; x01; x03; x04; x05].
Proof. split; [discriminate | reflexivity]. Qed.

(** C9, as stated, fails for width 70000 with the 3-byte magic "IMG":
    the magic check comes first, and its error is not the range error. *)
Lemma build_magic_checked_before_dimensions :
  ~ (forall width height pixel_indices magic,
       ~ fits_u16 width \/ ~ fits_u16 height ->
       exists e,
         build_image_packet pixel_indices width height magic = Raise e
         /\ DimensionOutOfRange e = true).
Proof.
  intros H.
  destruct (H 70000 1 [] [x49; x4d; x47]) as (e & He & Hr).
  - left. unfold fits_u16. lia.
  - injection He as <-. discriminate Hr.
Qed.

(** C9, as amended: a width or height outside 0..65535 never yields a
    packet.  With a 4-byte magic the call raises the range error of
    [to_bytes]; with any other magic the magic-length error is raised
    first. *)
Theorem build_rejects_dimension
  (width height : Z) (pixel_indices : list Z) (magic : list byte) :
  ~ fits_u16 width \/ ~ fits_u16 height ->
  (forall packet,
     build_image_packet pixel_indices width height magic <> Return packet)
  /\ (List.length magic = 4%nat ->
      exists e,
        build_image_packet pixel_indices width height magic = Raise e
        /\ DimensionOutOfRange e = true)
  /\ (List.length magic <> 4%nat ->
      build_image_packet pixel_indices width height magic
      = Raise InvalidMagicLength).
Proof.
  intros Hd. split; [ | split].
  - intros packet Hb. apply build_return_inv in Hb. tauto.
  - intros Hm.
    destruct (build_bad_dimension pixel_indices width height magic Hm Hd)
      as [msg E].
    exists (OverflowError msg). now split.
  - intros Hm. now apply build_bad_magic.
Qed.

Lemma build_rejects_dimension_witness :
  (~ fits_u16 65536 \/ ~ fits_u16 120)
  /\ exists e,
       build_image_packet [3; 4; 5] 65536 120 DEFAULT_MAGIC = Raise e
       /\ DimensionOutOfRange e = true.
Proof.
  assert (H : ~ fits_u16 65536 \/ ~ fits_u16 120)
    by (left; unfold fits_u16; lia).
  split; [exact H | ].
  exact (proj1 (proj2
    (build_rejects_dimension 65536 120 [3; 4; 5] DEFAULT_MAGIC H)) eq_refl).
Defined.

(** * Further properties of the palette and the quantiser *)

Lemma square_bound (d m : Z) : - m <= d <= m -> d * d <= m * m.
Proof. intros H. nia. Qed.

(** X1: the squared distance does not depend on the order of its two
    arguments. *)
Theorem color_distance_sq_sym (c1 c2 : color) :
  _color_distance_sq c1 c2 = _color_distance_sq c2 c1.
Proof.
  destruct c1 as [[r1 g1] b1], c2 as [[r2 g2] b2].
  unfold _color_distance_sq. ring.
Qed.

(** X2: the squared distance is never negative, and it is zero exactly
    when the two colours are the same triple. *)
Theorem color_distance_sq_zero_iff (c1 c2 : color) :
  0 <= _color_distance_sq c1 c2
  /\ (_color_distance_sq c1 c2 = 0 <-> c1 = c2).
Proof.
  destruct c1 as [[r1 g1] b1], c2 as [[r2 g2] b2].
  unfold _color_distance_sq.
  pose proof (Z.square_nonneg (r1 - r2)) as Hr.
  pose proof (Z.square_nonneg (g1 - g2)) as Hg.
  pose proof (Z.square_nonneg (b1 - b2)) as Hb.
  split; [lia | split].
  - intros H0.
    assert (Er : (r1 - r2) * (r1 - r2) = 0) by lia.
    assert (Eg : (g1 - g2) * (g1 - g2) = 0) by lia.
    assert (Eb : (b1 - b2) * (b1 - b2) = 0) by lia.
    apply Z.mul_eq_0 in Er, Eg, Eb.
    repeat f_equal; lia.
  - intros E. injection E as -> -> ->.
    rewrite !Z.sub_diag. reflexivity.
Qed.

(** X3: between two 8-bit colours the squared distance is at most
    3 * 255 * 255 = 195075. *)
Theorem color_distance_sq_8bit_bound (c1 c2 : color) :
  is_8bit c1 -> is_8bit c2 ->
  0 <= _color_distance_sq c1 c2 <= 195075.
Proof.
  destruct c1 as [[r1 g1] b1], c2 as [[r2 g2] b2].
  intros (Hr1 & Hg1 & Hb1) (Hr2 & Hg2 & Hb2).
  unfold _color_distance_sq.
  pose proof (Z.square_nonneg (r1 - r2)).
  pose proof (Z.square_nonneg (g1 - g2)).
  pose proof (Z.square_nonneg (b1 - b2)).
  pose proof (square_bound (r1 - r2) 255).
  pose proof (square_bound (g1 - g2) 255).
  pose proof (square_bound (b1 - b2) 255).
  lia.
Qed.

Lemma color_distance_sq_8bit_bound_witness :
  is_8bit (0, 0, 0) /\ is_8bit (255, 255, 255)
  /\ 0 <= _color_distance_sq (0, 0, 0) (255, 255, 255) <= 195075.
Proof.
  assert (H1 : is_8bit (0, 0, 0)) by (cbn; lia).
  assert (H2 : is_8bit (255, 255, 255)) by (cbn; lia).
  split; [exact H1 | split; [exact H2 | ]].
  exact (color_distance_sq_8bit_bound (0, 0, 0) (255, 255, 255) H1 H2).
Defined.

Lemma quantize_position (rgb : color) :
  exists i : nat,
    (i < 8)%nat /\ _quantize_color_to_palette_3bit rgb = Z.of_nat i.
Proof.
  destruct (scan_palette_invariant rgb PALETTE_8_COLORS)
    as (i & Hi & _ & Hlt & _); [discriminate | ].
  exists i. split; [exact Hlt | exact Hi].
Qed.

Lemma quantize_palette_index (rgb : color) :
  palette_index (_quantize_color_to_palette_3bit rgb).
Proof.
  destruct (quantize_position rgb) as (i & Hlt & ->).
  unfold palette_index. lia.
Qed.

(** X4: for every integer triple, also one with channels outside
    0..255, the quantiser returns a value between 0 and 7. *)
Theorem quantize_range (rgb : color) :
  0 <= _quantize_color_to_palette_3bit rgb <= 7.
Proof. exact (quantize_palette_index rgb). Qed.

(** X5: quantising is idempotent through the palette: the palette
    colour of the returned index quantises to that same index. *)
Theorem quantize_idempotent (rgb : color) :
  _quantize_color_to_palette_3bit
    (palette_at PALETTE_8_COLORS
       (Z.to_nat (_quantize_color_to_palette_3bit rgb)))
  = _quantize_color_to_palette_3bit rgb.
Proof.
  destruct (quantize_position rgb) as (i & Hlt & ->).
  rewrite Nat2Z.id.
  do 8 (destruct i as [|i]; [reflexivity | ]). lia.
Qed.

(** The corner picked channel by channel is strictly nearest for every
    integer triple: no integer is at the same distance from 0 and 255. *)
Lemma threshold_unique_nearest_any (rgb : color) :
  unique_nearest rgb (Z.to_nat (threshold_index rgb)).
Proof.
  destruct rgb as [[r g] b]. intros j Hj Hne.
  unfold threshold_index in *.
  destruct (Z.leb_spec 128 r), (Z.leb_spec 128 g), (Z.leb_spec 128 b);
    match goal with
    | |- context [Z.to_nat ?e] =>
        let v := eval vm_compute in (Z.to_nat e) in
        change (Z.to_nat e) with v in *
    end;
    (do 8 (destruct j as [|j]; [try congruence; cbn; lia | ])); lia.
Qed.

Lemma quantize_is_threshold (rgb : color) :
  _quantize_color_to_palette_3bit rgb = threshold_index rgb.
Proof.
  pose proof (threshold_unique_nearest_any rgb) as Hu.
  pose proof (threshold_index_range rgb) as Ht.
  destruct (scan_palette_invariant rgb PALETTE_8_COLORS)
    as (i & Hi & _ & Hlt & Hmin & _); [discriminate | ].
  change (_quantize_color_to_palette_3bit rgb = Z.of_nat i) in Hi.
  cbn [List.length PALETTE_8_COLORS] in Hlt, Hmin.
  destruct (Nat.eq_dec i (Z.to_nat (threshold_index rgb))) as [E | E].
  - rewrite Hi, E. apply Z2Nat.id. lia.
  - exfalso. specialize (Hu i Hlt E).
    specialize (Hmin (Z.to_nat (threshold_index rgb))). lia.
Qed.

(** X6: the per-channel rule holds for every integer triple, not only
    for 8-bit ones: a channel below 128 (negative values included)
    selects 0 and a channel of 128 or more (values above 255 included)
    selects 255. *)
Theorem quantize_by_channel (rgb : color) :
  _quantize_color_to_palette_3bit rgb = threshold_index rgb.
Proof. exact (quantize_is_threshold rgb). Qed.

(** X7: for an 8-bit colour every channel of the chosen palette colour
    is within 127 of the input channel, so the squared distance to it
    is at most 3 * 127 * 127 = 48387. *)
Theorem quantize_error_bound (rgb : color) :
  is_8bit rgb ->
  let '(r, g, b) := rgb in
  let '(pr, pg, pb) :=
    palette_at PALETTE_8_COLORS
      (Z.to_nat (_quantize_color_to_palette_3bit rgb)) in
  - 127 <= r - pr <= 127 /\ - 127 <= g - pg <= 127
  /\ - 127 <= b - pb <= 127
  /\ _color_distance_sq rgb (pr, pg, pb) <= 48387.
Proof.
  intros H8. rewrite quantize_is_threshold.
  destruct rgb as [[r g] b]. destruct H8 as (Hr & Hg & Hb).
  unfold threshold_index.
  destruct (Z.leb_spec 128 r), (Z.leb_spec 128 g), (Z.leb_spec 128 b);
    match goal with
    | |- context [Z.to_nat ?e] =>
        let v := eval vm_compute in (Z.to_nat e) in
        change (Z.to_nat e) with v
    end;
    cbn;
    (repeat split; try lia);
    match goal with
    | |- ?dr * ?dr + ?dg * ?dg + ?db * ?db <= _ =>
        pose proof (square_bound dr 127);
        pose proof (square_bound dg 127);
        pose proof (square_bound db 127); lia
    end.
Qed.

Lemma quantize_error_bound_witness :
  is_8bit (127, 128, 200)
  /\ _color_distance_sq (127, 128, 200) (0, 255, 255) <= 48387.
Proof.
  assert (H : is_8bit (127, 128, 200)) by (cbn; lia).
  split; [exact H | ].
  exact (proj2 (proj2 (proj2 (quantize_error_bound (127, 128, 200) H)))).
Defined.

(** * Further properties of the frame loop and the packet *)

(** X8: whatever the image and the dimensions, every element of the
    list returned by the frame loop is between 0 and 7. *)
Theorem load_and_convert_indices_in_range
  (img : image) (width height : Z) :
  Forall palette_index
    (fst (fst (load_and_convert_to_3bit_indices img width height))).
Proof.
  rewrite load_and_convert_rows. cbn [fst].
  apply Forall_forall. intros idx Hin.
  apply in_flat_map in Hin. destruct Hin as (y & _ & Hin).
  unfold quantized_row in Hin. apply in_map_iff in Hin.
  destruct Hin as (x & <- & _). apply quantize_palette_index.
Qed.

Lemma land_7_mod (idx : Z) : Z.land idx 7 = idx mod 8.
Proof. change 7 with (Z.ones 3). now rewrite Z.land_ones by lia. Qed.

Lemma land_7_palette_index (idx : Z) :
  palette_index idx -> Z.land idx 7 = idx.
Proof.
  unfold palette_index. intros H.
  rewrite land_7_mod. apply Z.mod_small. lia.
Qed.

Lemma masked_bytes_values (pixel_indices : list Z) :
  map byte_value (map masked_byte pixel_indices)
  = map (fun idx => Z.land idx 7) pixel_indices.
Proof. rewrite map_map. apply map_ext. exact byte_value_masked_byte. Qed.

Lemma masked_bytes_of_palette_indices (pixel_indices : list Z) :
  Forall palette_index pixel_indices ->
  map byte_value (map masked_byte pixel_indices) = pixel_indices.
Proof.
  intros Hall. rewrite masked_bytes_values.
  rewrite <- (map_id pixel_indices) at 2.
  apply map_ext_in. intros idx Hin.
  apply land_7_palette_index.
  exact (proj1 (Forall_forall _ _) Hall idx Hin).
Qed.

(** X9: packing keeps the number of elements, and on indices that are
    all between 0 and 7 it loses nothing: the byte values of the
    payload are the indices themselves. *)
Theorem pack_pixels_round_trip (pixel_indices : list Z) :
  exists payload,
    pack_pixels_1byte_per_pixel pixel_indices = Return payload
    /\ List.length payload = List.length pixel_indices
    /\ (Forall palette_index pixel_indices ->
        map byte_value payload = pixel_indices).
Proof.
  exists (map masked_byte pixel_indices).
  split; [apply pack_pixels_returns | split].
  - apply length_map.
  - apply masked_bytes_of_palette_indices.
Qed.

Lemma pack_pixels_round_trip_witness :
  exists payload,
    pack_pixels_1byte_per_pixel [0; 7; 3] = Return payload
    /\ List.length payload = List.length [0; 7; 3]
    /\ (Forall palette_index [0; 7; 3] ->
        map byte_value payload = [0; 7; 3]).
Proof. exact (pack_pixels_round_trip [0; 7; 3]). Defined.

Lemma byte_value_inj (b1 b2 : byte) :
  byte_value b1 = byte_value b2 -> b1 = b2.
Proof.
  unfold byte_value. intros H. apply N2Z.inj in H.
  pose proof (Byte.of_to_N b1) as E1. rewrite H in E1.
  rewrite Byte.of_to_N in E1. now injection E1.
Qed.

(** X10: the payload depends on the indices only through their
    remainders modulo 8: two index lists give the same payload exactly
    when they agree element by element modulo 8. *)
Theorem pack_pixels_modulo_8 (l1 l2 : list Z) :
  pack_pixels_1byte_per_pixel l1 = pack_pixels_1byte_per_pixel l2
  <-> map (fun idx => idx mod 8) l1 = map (fun idx => idx mod 8) l2.
Proof.
  rewrite !pack_pixels_returns.
  assert (Hm : forall l, map (fun idx => idx mod 8) l
                         = map byte_value (map masked_byte l)).
  { intros l. rewrite masked_bytes_values. apply map_ext.
    intros idx. now rewrite land_7_mod. }
  rewrite !Hm. split.
  - intros E. injection E as E. now rewrite E.
  - intros E. f_equal.
    revert E. generalize (map masked_byte l1), (map masked_byte l2).
    induction l as [|b l IH]; intros [|b' l'] E; try discriminate E.
    + reflexivity.
    + cbn [map] in E. injection E as Eb El.
      f_equal; [now apply byte_value_inj | now apply IH].
Qed.

Lemma pack_pixels_app (l1 l2 : list Z) :
  map masked_byte (l1 ++ l2) = map masked_byte l1 ++ map masked_byte l2.
Proof. apply map_app. Qed.

(** X11: appending indices appends their payload bytes and leaves the
    rest of the packet as it was: if the packet for [l1] is [p1], the
    packet for [l1 ++ l2] with the same header arguments is [p1]
    followed by the packed [l2]. *)
Theorem build_image_packet_app
  (l1 l2 : list Z) (width height : Z) (magic p1 : list byte) :
  build_image_packet l1 width height magic = Return p1 ->
  exists q2,
    pack_pixels_1byte_per_pixel l2 = Return q2
    /\ build_image_packet (l1 ++ l2) width height magic
       = Return (p1 ++ q2).
Proof.
  intros Hb. apply build_return_inv in Hb.
  destruct Hb as (Hm & Hw & Hh & ->).
  exists (map masked_byte l2). split; [apply pack_pixels_returns | ].
  rewrite build_returns by assumption. unfold packet_of.
  now rewrite pack_pixels_app, <- !app_assoc.
Qed.

Lemma build_image_packet_app_witness :
  exists q2,
    pack_pixels_1byte_per_pixel [5; 6] = Return q2
    /\ build_image_packet ([3; 4] ++ [5; 6]) 2 2 DEFAULT_MAGIC
       = Return ([x49; x4d; x47; x33; x00; x02; x00; x02; x03; x04] ++ q2).
Proof.
  exact (build_image_packet_app [3; 4] [5; 6] 2 2 DEFAULT_MAGIC _ eq_refl).
Defined.

(** The four fields of a well-formed packet, read back. *)
Lemma packet_of_fields (pixel_indices : list Z) (width height : Z)
  (magic : list byte) :
  List.length magic = 4%nat -> fits_u16 width -> fits_u16 height ->
  slice 0 4 (packet_of pixel_indices width height magic) = magic
  /\ from_bytes (slice 4 6 (packet_of pixel_indices width height magic))
     = width
  /\ from_bytes (slice 6 8 (packet_of pixel_indices width height magic))
     = height
  /\ skipn 8 (packet_of pixel_indices width height magic)
     = map masked_byte pixel_indices.
Proof.
  intros Hm Hw Hh.
  pose proof (from_bytes_little_endian_rev 2 width) as Ew.
  pose proof (from_bytes_little_endian_rev 2 height) as Eh.
  rewrite Z.mod_small in Ew, Eh by now apply fits_u16_to_bytes.
  unfold packet_of.
  do 4 (destruct magic as [|? magic]; [discriminate Hm | ]).
  destruct magic; [ | discriminate Hm].
  repeat split; [exact Ew | exact Eh].
Qed.

(** X12: when every index is between 0 and 7, the bytes of a built
    packet from offset 8 on have exactly the indices as their values:
    a receiver reads the index list back unchanged. *)
Theorem build_payload_round_trip
  (pixel_indices : list Z) (width height : Z) (magic packet : list byte) :
  Forall palette_index pixel_indices ->
  build_image_packet pixel_indices width height magic = Return packet ->
  map byte_value (skipn 8 packet) = pixel_indices.
Proof.
  intros Hall Hb. apply build_return_inv in Hb.
  destruct Hb as (Hm & Hw & Hh & ->).
  destruct (packet_of_fields pixel_indices width height magic Hm Hw Hh)
    as (_ & _ & _ & ->).
  now apply masked_bytes_of_palette_indices.
Qed.

Lemma build_payload_round_trip_witness :
  Forall palette_index [3; 4; 5]
  /\ map byte_value
       (skipn 8 [x49; x4d; x47; x33; x00; x01; x00; x03; x03; x04; x05])
     = [3; 4; 5].
Proof.
  assert (H : Forall palette_index [3; 4; 5])
    by (repeat constructor; unfold palette_index; lia).
  split; [exact H | ].
  exact (build_payload_round_trip [3; 4; 5] 1 3 DEFAULT_MAGIC _ H eq_refl).
Defined.

(** X13: a packet determines its arguments up to the masking: two calls
    that return the same packet had the same magic, the same width, the
    same height and index lists that agree after masking to three
    bits. *)
Theorem build_image_packet_injective
  (l1 l2 : list Z) (w1 h1 w2 h2 : Z) (m1 m2 packet : list byte) :
  build_image_packet l1 w1 h1 m1 = Return packet ->
  build_image_packet l2 w2 h2 m2 = Return packet ->
  m1 = m2 /\ w1 = w2 /\ h1 = h2
  /\ map (fun idx => Z.land idx 7) l1 = map (fun idx => Z.land idx 7) l2.
Proof.
  intros H1 H2.
  apply build_return_inv in H1. destruct H1 as (Hm1 & Hw1 & Hh1 & E1).
  apply build_return_inv in H2. destruct H2 as (Hm2 & Hw2 & Hh2 & E2).
  destruct (packet_of_fields l1 w1 h1 m1 Hm1 Hw1 Hh1)
    as (A1 & B1 & C1 & D1).
  destruct (packet_of_fields l2 w2 h2 m2 Hm2 Hw2 Hh2)
    as (A2 & B2 & C2 & D2).
  rewrite <- E1 in A1, B1, C1, D1. rewrite <- E2 in A2, B2, C2, D2.
  repeat split; try congruence.
  rewrite <- !masked_bytes_values. congruence.
Qed.

Lemma build_image_packet_injective_witness :
  DEFAULT_MAGIC = DEFAULT_MAGIC /\ 1 = 1 /\ 3 = 3
  /\ map (fun idx => Z.land idx 7) [3; 4; 5]
     = map (fun idx => Z.land idx 7) [11; -4; 13].
Proof.
  exact (build_image_packet_injective [3; 4; 5] [11; -4; 13] 1 3 1 3
           DEFAULT_MAGIC DEFAULT_MAGIC _ eq_refl eq_refl).
Defined.

(** * The pipeline of [main] *)

Lemma length_rows (img : image) (width height : Z) :
  List.length (flat_map (quantized_row img width) (range height))
  = (Z.to_nat height * Z.to_nat width)%nat.
Proof.
  rewrite flat_map_constant_length with (c := Z.to_nat width).
  - now rewrite length_range.
  - intros y _. apply length_quantized_row.
Qed.

Lemma nth_error_rows (img : image) (width height x y : Z) :
  0 <= x < width -> 0 <= y < height ->
  nth_error (flat_map (quantized_row img width) (range height))
    (Z.to_nat y * Z.to_nat width + Z.to_nat x)
  = Some (_quantize_color_to_palette_3bit (img (x, y))).
Proof.
  intros Hx Hy.
  rewrite (nth_error_flat_map_uniform _ _ _ (Z.to_nat width) _ _ _ y).
  - unfold quantized_row.
    rewrite nth_error_map, nth_error_range by lia.
    cbn [option_map]. now rewrite Z2Nat.id by lia.
  - intros y' _. apply length_quantized_row.
  - rewrite nth_error_range by lia. now rewrite Z2Nat.id by lia.
  - lia.
Qed.

Lemma main_packet_unfold (img : image) (width height : Z) :
  main_packet img width height
  = build_image_packet
      (flat_map (quantized_row img width) (range height))
      width height DEFAULT_MAGIC.
Proof. unfold main_packet. now rewrite load_and_convert_rows. Qed.

(** X14: end to end, for a width and a height between 1 and 65535 the
    pipeline of [main] produces a packet of exactly
    [8 + width * height] bytes: the default magic, the two dimensions
    in big-endian, and at offset [8 + y * width + x] the byte whose
    value is the quantised pixel [(x, y)]. *)
Theorem main_packet_layout (img : image) (width height : Z) :
  0 < width <= 65535 -> 0 < height <= 65535 ->
  exists packet,
    main_packet img width height = Return packet
    /\ Z.of_nat (List.length packet) = 8 + width * height
    /\ slice 0 4 packet = DEFAULT_MAGIC
    /\ from_bytes (slice 4 6 packet) = width
    /\ from_bytes (slice 6 8 packet) = height
    /\ forall x y,
         0 <= x < width -> 0 <= y < height ->
         option_map byte_value
           (nth_error packet (Z.to_nat (8 + y * width + x)))
         = Some (_quantize_color_to_palette_3bit (img (x, y))).
Proof.
  intros Hw Hh.
  set (indices := flat_map (quantized_row img width) (range height)).
  assert (Fw : fits_u16 width) by (unfold fits_u16; lia).
  assert (Fh : fits_u16 height) by (unfold fits_u16; lia).
  assert (Hm : List.length DEFAULT_MAGIC = 4%nat) by reflexivity.
  exists (packet_of indices width height DEFAULT_MAGIC).
  destruct (packet_of_fields indices width height DEFAULT_MAGIC Hm Fw Fh)
    as (A & B & C & D).
  split; [ | split; [ | split; [exact A | split; [exact B | split;
    [exact C | ]]]]].
  - rewrite main_packet_unfold. now apply build_returns.
  - rewrite (length_packet_of _ _ _ _ Hm). unfold indices.
    rewrite length_rows. lia.
  - intros x y Hx Hy.
    replace (Z.to_nat (8 + y * width + x))
      with (8 + (Z.to_nat y * Z.to_nat width + Z.to_nat x))%nat by nia.
    rewrite <- nth_error_skipn, D, nth_error_map.
    unfold indices. rewrite nth_error_rows by assumption.
    cbn [option_map]. f_equal.
    rewrite byte_value_masked_byte.
    apply land_7_palette_index, quantize_palette_index.
Qed.

Lemma main_packet_layout_witness :
  0 < 2 <= 65535 /\ 0 < 3 <= 65535
  /\ exists packet,
       main_packet (fun p => (255 * fst p, 127 * snd p, 0)) 2 3
       = Return packet
       /\ Z.of_nat (List.length packet) = 8 + 2 * 3.
Proof.
  assert (Hw : 0 < 2 <= 65535) by lia.
  assert (Hh : 0 < 3 <= 65535) by lia.
  split; [exact Hw | split; [exact Hh | ]].
  destruct (main_packet_layout
              (fun p => (255 * fst p, 127 * snd p, 0)) 2 3 Hw Hh)
    as (packet & E & L & _).
  exists packet. split; [exact E | exact L].
Defined.

(** X15: the pipeline of [main] has no check of its own on the
    dimensions: for a positive width and height of which one exceeds
    65535 it fails in the packet builder with the range error, and no
    packet is produced. *)
Theorem main_packet_oversize (img : image) (width height : Z) :
  0 < width -> 0 < height -> 65535 < width \/ 65535 < height ->
  exists e,
    main_packet img width height = Raise e
    /\ DimensionOutOfRange e = true.
Proof.
  intros Hw Hh Hbig. rewrite main_packet_unfold.
  destruct (build_bad_dimension
              (flat_map (quantized_row img width) (range height))
              width height DEFAULT_MAGIC eq_refl) as [msg E].
  - unfold fits_u16. lia.
  - exists (OverflowError msg). split; [exact E | reflexivity].
Qed.

Lemma main_packet_oversize_witness :
  0 < 1 /\ 0 < 65536 /\ (65535 < 1 \/ 65535 < 65536)
  /\ exists e,
       main_packet (fun _ => (0, 0, 0)) 1 65536 = Raise e
       /\ DimensionOutOfRange e = true.
Proof.
  assert (Hw : 0 < 1) by lia.
  assert (Hh : 0 < 65536) by lia.
  assert (Hb : 65535 < 1 \/ 65535 < 65536) by (right; lia).
  split; [exact Hw | split; [exact Hh | split; [exact Hb | ]]].
  exact (main_packet_oversize (fun _ => (0, 0, 0)) 1 65536 Hw Hh Hb).
Defined.
